(** * video_metadata: the gap-filling reconciler and the result container

    A shallow embedding of [src/video_metadata/video_metadata.py].  Python
    values that travel through the module (API records, the [json] argument)
    are embedded as a small JSON-like data type; raised exceptions are the
    left summand of [result]. *)

From stdpp Require Import gmap strings list fin_maps.

Open Scope string_scope.
Open Scope list_scope.
Open Scope nat_scope.

(** ** Python values and exceptions *)

(** The exceptions the module can raise, by their Python class. *)
Inductive exn :=
  | ValueError
  | StopIteration
  | IndexError
  | KeyError
  | TypeError
  | AttributeError.

#[export] Instance exn_eq_dec : EqDecision exn.
Proof. solve_decision. Defined.

Definition result (A : Type) : Type := exn + A.

Definition raise {A} (e : exn) : result A := inl e.

#[export] Instance result_ret : MRet result := λ A x, inr x.
#[export] Instance result_bind : MBind result := λ A B f m,
  match m with
  | inl e => inl e
  | inr x => f x
  end.

(** [try m except e: h] *)
Definition try_except {A} (m : result A) (e : exn) (h : result A) : result A :=
  match m with
  | inl e' => if decide (e' = e) then h else inl e'
  | inr x => inr x
  end.

(** Decoded JSON: [None], strings, lists and dicts.  A dict is kept as the
    list of its items in insertion order, which is also the order Python
    iterates its keys in. *)
#[warnings="-register-all"]
Inductive value :=
  | VNone
  | VStr (s : string)
  | VList (l : list value)
  | VDict (d : list (string * value)).

Fixpoint dict_get (d : list (string * value)) (k : string) : option value :=
  match d with
  | [] => None
  | (k', v) :: d' => if decide (k' = k) then Some v else dict_get d' k
  end.

(** [v[k]] for a string key [k]. *)
Definition subscript (v : value) (k : string) : result value :=
  match v with
  | VDict d =>
      match dict_get d k with
      | Some x => mret x
      | None => raise KeyError
      end
  | _ => raise TypeError
  end.

(** [v.get(k)]: only dicts have the method. *)
Definition get (v : value) (k : string) : result value :=
  match v with
  | VDict d => mret (default VNone (dict_get d k))
  | _ => raise AttributeError
  end.

(** [bool(v)] *)
Definition truthy (v : value) : bool :=
  match v with
  | VNone => false
  | VStr s => negb (bool_decide (s = ""))
  | VList l => negb (bool_decide (length l = 0))
  | VDict d => negb (bool_decide (length d = 0))
  end.

(** [r == v] for a string [r]: values of another type never equal a string. *)
Definition str_eq (r : string) (v : value) : bool :=
  match v with
  | VStr s => bool_decide (r = s)
  | _ => false
  end.

(** A Python [str] is a sequence of code points; a [string] here holds its
    UTF-8 encoding.  In UTF-8 the bytes [10xxxxxx] continue the code point
    that the last byte of another form started. *)
Definition is_continuation (a : Ascii.ascii) : bool :=
  match a with
  | Ascii.Ascii _ _ _ _ _ _ b6 b7 => b7 && negb b6
  end.

(** The characters of a string, each a one-character string, as [iter(s)]
    yields them (and [len(s)] counts them): one per code point, a lead byte
    with the continuation bytes that follow it. *)
Fixpoint chars (s : string) : list string :=
  match s with
  | EmptyString => []
  | String a s' =>
      match s' with
      | EmptyString => [String a EmptyString]
      | String b _ =>
          match chars s' with
          | [] => [String a EmptyString]
          | c :: cs =>
              if is_continuation b then String a c :: cs
              else String a EmptyString :: c :: cs
          end
      end
  end.

(** [[x for x in v]] *)
Definition py_iter (v : value) : result (list value) :=
  match v with
  | VNone => raise TypeError
  | VStr s => mret (VStr <$> chars s)
  | VList l => mret l
  | VDict d => mret ((λ kv, VStr kv.1) <$> d)
  end.

(** ** The reconciler: [_mark_unavailable_videos] *)

(** The [while not matches] loop for one returned record.  [reqs] is what
    [vids_request_iter] has left, [some_info] the output built so far;
    [next] on the exhausted iterator raises [StopIteration]. *)
Fixpoint while_not_matches (vid_result : value) (reqs : list string)
    (some_info : list value) : result (list value * list string) :=
  match reqs with
  | [] => raise StopIteration
  | request_yt_id :: reqs' =>
      response_yt_id ← subscript vid_result "id";
      if str_eq request_yt_id response_yt_id
      then mret (some_info ++ [vid_result], reqs')
      else while_not_matches vid_result reqs' (some_info ++ [VNone])
  end.

(** The [for vid_result in vids_result] loop. *)
Fixpoint for_vids_result (vids_result : list value) (reqs : list string)
    (some_info : list value) : result (list value * list string) :=
  match vids_result with
  | [] => mret (some_info, reqs)
  | vid_result :: rest =>
      '(some_info', reqs') ← while_not_matches vid_result reqs some_info;
      for_vids_result rest reqs' some_info'
  end.

Definition _mark_unavailable_videos (vids_requested : list string)
    (vids_result : list value) : result (list value) :=
  let no_vid_results := bool_decide (length vids_result = 0) in
  if no_vid_results then mret (replicate (length vids_requested) VNone)
  else
    '(some_info, reqs) ← for_vids_result vids_result vids_requested [];
    mret (some_info ++ replicate (length reqs) VNone).

(** ** The result container: class [VideoMetadata] *)

Definition _CATEGORY_ID_TO_NAME : gmap string string :=
  list_to_map
    [("1", "Film & Animation");
     ("2", "Autos & Vehicles");
     ("10", "Music");
     ("15", "Pets & Animals");
     ("17", "Sports");
     ("18", "ShortMovies");
     ("19", "Travel & Events");
     ("20", "Gaming");
     ("21", "Videoblogging");
     ("22", "People & Blogs");
     ("23", "Comedy");
     ("24", "Entertainment");
     ("25", "News & Politics");
     ("26", "Howto & Style");
     ("27", "Education");
     ("28", "Science & Technology");
     ("29", "Nonprofits & Activism");
     ("30", "Movies");
     ("31", "Anime/Animation");
     ("32", "Action/Adventure");
     ("33", "Classics");
     ("34", "Comedy");
     ("35", "Documentary");
     ("36", "Drama");
     ("37", "Family");
     ("38", "Foreign");
     ("39", "Horror");
     ("40", "Sci-Fi/Fantasy");
     ("41", "Thriller");
     ("42", "Shorts");
     ("43", "Shows");
     ("44", "Trailers")].

(** The API client, the external collaborator.  All the module asks of it is
    [client.videos().list(part=…, fields=…, id=ids).execute()["items"]], the
    list of returned records for a comma-separated string of ids.  The model
    covers the runs in which this request (and [build], below) returns: what
    the collaborator itself may raise is outside it. *)
Record Resource := { videos_list_items : string → list value }.

(** The [video_id] argument: [Union[str, list]]. *)
Inductive video_ids :=
  | IdStr (s : string)
  | IdList (l : list string).

(** [bool(video_id)] *)
Definition ids_truthy (v : video_ids) : bool :=
  match v with
  | IdStr s => negb (bool_decide (s = ""))
  | IdList l => negb (bool_decide (length l = 0))
  end.

(** What [iter(video_id)] yields (and [len] counts): the elements of a list,
    the characters of a string. *)
Definition ids_elements (v : video_ids) : list string :=
  match v with
  | IdStr s => chars s
  | IdList l => l
  end.

(** [','.join(ids)] *)
Fixpoint join_comma (ids : list string) : string :=
  match ids with
  | [] => ""
  | [x] => x
  | x :: rest => (x +:+ "," +:+ join_comma rest)%string
  end.

Definition _convert_list_to_comma_string (ids : video_ids) : string :=
  match ids with
  | IdStr s => s
  | IdList l => join_comma l
  end.

(** The instance attributes. *)
Record VideoMetadata := {
  _index_next_video : nat;
  client : Resource;
  _current_metadata : value;
  _multi_metadata : list value;
}.

(** [l[i]] on a list, for an index that is never negative. *)
Definition list_getitem (l : list value) (i : nat) : result value :=
  match l !! i with
  | Some x => mret x
  | None => raise IndexError
  end.

(** The argument of [__getitem__]: an integer index (negative ones count from
    the end) or a range [a:b] with bounds that are not negative. *)
Inductive item :=
  | Index (i : Z)
  | Slice (a b : nat).

(** [l[item]]: an index gives one element, a range gives a list; a range is
    clipped to the list and never raises. *)
Definition list_subscript (l : list value) (it : item) : result value :=
  match it with
  | Index i =>
      let n := Z.of_nat (length l) in
      if bool_decide (0 ≤ i < n)%Z then list_getitem l (Z.to_nat i)
      else if bool_decide (- n ≤ i < 0)%Z then list_getitem l (Z.to_nat (n + i))
      else raise IndexError
  | Slice a b => mret (VList (take (b - a) (drop a l)))
  end.

Section container.
(** [googleapiclient.discovery.build] at the fixed service name and version,
    as a function of the developer key. *)
Variable build : string → Resource.

(** [_get_video_metadata] sets [_multi_metadata] and [_current_metadata];
    it returns both. *)
Definition _get_video_metadata (client : Resource) (yt_id : video_ids)
    : result (list value * value) :=
  let result := videos_list_items client (_convert_list_to_comma_string yt_id) in
  multi ← _mark_unavailable_videos (ids_elements yt_id) result;
  current ← list_getitem multi 0;
  mret (multi, current).

(** The constructor.  An omitted [video_id] or [dev_key] is [''], an
    omitted [json] or [client] is [None]. *)
Definition __init__ (video_id : video_ids) (dev_key : string)
    (json : option (list (string * value))) (client : option Resource)
    : result VideoMetadata :=
  let index_next_video := 0 in
  client ← match client with
           | Some c => mret c
           | None =>
               if negb (bool_decide (dev_key = ""))
               then mret (build dev_key)
               else raise ValueError
           end;
  let current_metadata := VNone in
  '(multi_metadata, current_metadata) ←
    (if ids_truthy video_id then _get_video_metadata client video_id
     else mret ([], current_metadata));
  multi_metadata ←
    match json with
    | Some ((_ :: _) as d) => items ← subscript (VDict d) "items"; py_iter items
    | _ => mret multi_metadata
    end;
  mret {| _index_next_video := index_next_video;
          client := client;
          _current_metadata := current_metadata;
          _multi_metadata := multi_metadata |}.

(** [__getitem__] builds the new instance from [json] alone. *)
Definition __getitem__ (self : VideoMetadata) (it : item) : result VideoMetadata :=
  sliced ← list_subscript (_multi_metadata self) it;
  __init__ (IdStr "") "" (Some [("items", sliced)]) None.
End container.

Definition _current_video (self : VideoMetadata) : value := _current_metadata self.

Definition available (self : VideoMetadata) : bool :=
  if truthy (_current_video self) then true else false.

Definition __len__ (self : VideoMetadata) : nat := length (_multi_metadata self).

(** The two methods that assign attributes return the outcome together with
    the instance as the call leaves it: an exception does not undo the
    assignments made before it. *)
Definition __iter__ (self : VideoMetadata) : result unit * VideoMetadata :=
  (mret (), {| _index_next_video := 0;
               client := client self;
               _current_metadata := _current_metadata self;
               _multi_metadata := _multi_metadata self |}).

Definition __next__ (self : VideoMetadata) : result unit * VideoMetadata :=
  match try_except (list_getitem (_multi_metadata self) (_index_next_video self))
          IndexError (raise StopIteration) with
  | inl e => (inl e, self)
  | inr m =>
      (mret (), {| _index_next_video := _index_next_video self + 1;
                   client := client self;
                   _current_metadata := m;
                   _multi_metadata := _multi_metadata self |})
  end.

(** *** Field accessors (properties) *)

Definition id (self : VideoMetadata) : result value :=
  subscript (_current_video self) "id".

Definition category_id (self : VideoMetadata) : result value :=
  snippet ← get (_current_video self) "snippet";
  match snippet with
  | VNone => mret (VStr "")
  | _ =>
      cid ← get snippet "categoryId";
      match cid with
      | VNone => mret (VStr "")
      | _ => mret cid
      end
  end.

(** [_CATEGORY_ID_TO_NAME[k]]: a string key is looked up, [None] is hashable
    and never a key, lists and dicts are unhashable. *)
Definition category_table_getitem (k : value) : result value :=
  match k with
  | VStr s =>
      match _CATEGORY_ID_TO_NAME !! s with
      | Some name => mret (VStr name)
      | None => raise KeyError
      end
  | VNone => raise KeyError
  | _ => raise TypeError
  end.

Definition category_name (self : VideoMetadata) : result value :=
  cid ← category_id self;
  category_table_getitem cid.

(** [self._current_video()["snippet"][field]] *)
Definition snippet_field (self : VideoMetadata) (field : string) : result value :=
  snippet ← subscript (_current_video self) "snippet";
  subscript snippet field.

Definition channel_id (self : VideoMetadata) : result value :=
  try_except (snippet_field self "channelId") KeyError (mret (VStr "")).

Definition channel_title (self : VideoMetadata) : result value :=
  try_except (snippet_field self "channelTitle") KeyError (mret (VStr "")).

Definition title (self : VideoMetadata) : result value :=
  snippet_field self "title".

Definition keywords (self : VideoMetadata) : result value :=
  try_except (snippet_field self "tags") KeyError (mret (VList [])).

Definition description (self : VideoMetadata) : result value :=
  snippet_field self "description".

Definition time_published (self : VideoMetadata) : result value :=
  snippet_field self "publishedAt".

(** ** Vocabulary of the properties *)

(** A record that carries the id [i] and nothing else. *)
Definition rec_id (i : string) : value := VDict [("id", VStr i)].

(** The record [vid_result] carries the string [i] as its id. *)
Definition has_id (vid_result : value) (i : string) : Prop :=
  subscript vid_result "id" = inr (VStr i).

(** The precondition of the reconciler: the ids of the returned records are,
    in order, a subsequence of the requested ids, each of them is a
    requested id, and none occurs twice. *)
Definition returned_subsequence (requested : list string) (returned : list value) : Prop :=
  ∃ ids : list string,
    Forall2 has_id returned ids ∧ sublist ids requested ∧ ids ⊆ requested ∧ NoDup ids.

(** An output entry facing the requested id [r]: the absence marker, or one
    of the returned records, with id [r]. *)
Definition aligned (returned : list value) (entry : value) (r : string) : Prop :=
  entry = VNone ∨ (entry ∈ returned ∧ has_id entry r).

(** [n] calls of [__next__] in a row, whatever each call's outcome. *)
Fixpoint next_n (n : nat) (self : VideoMetadata) : VideoMetadata :=
  match n with
  | 0 => self
  | S n' => next_n n' (__next__ self).2
  end.

(** One pass over the batch, as a [for] loop makes it: [__iter__], then
    [__next__] once per record. *)
Definition traverse (self : VideoMetadata) : VideoMetadata :=
  next_n (length (_multi_metadata self)) (__iter__ self).2.

(** [iter(self); next(self); next(self); iter(self)] *)
Definition reset_advance_advance_reset (self : VideoMetadata) : VideoMetadata :=
  (__iter__ (__next__ (__next__ (__iter__ self).2).2).2).2.

(** A client that resolves ["A"] and ["C"] whatever it is asked, and the
    container built from it for the request [["A"; "B"; "C"]]. *)
Definition two_of_three : Resource :=
  {| videos_list_items := λ _, [rec_id "A"; rec_id "C"] |}.

Definition abc_container : VideoMetadata :=
  {| _index_next_video := 0;
     client := two_of_three;
     _current_metadata := rec_id "A";
     _multi_metadata := [rec_id "A"; VNone; rec_id "C"] |}.

(** A container whose current record is [v]. *)
Definition pointing_at (v : value) : VideoMetadata :=
  {| _index_next_video := 1;
     client := two_of_three;
     _current_metadata := v;
     _multi_metadata := [v] |}.

(** The fields of a present record that the optional accessors look for:
    [lacks_field d f] when the record has no snippet, or a snippet without
    the field [f]. *)
Definition lacks_field (d : list (string * value)) (field : string) : bool :=
  match dict_get d "snippet" with
  | None => true
  | Some (VDict snippet) =>
      match dict_get snippet field with
      | None => true
      | Some _ => false
      end
  | Some _ => false
  end.

(** A present record whose snippet is [None] instead of a mapping:
    [{"id": "X", "snippet": None}]. *)
Definition null_snippet_record : list (string * value) :=
  [("id", VStr "X"); ("snippet", VNone)].

(** The record of the scenario: id ["X"], a snippet with a title and
    nothing else. *)
Definition record_X : list (string * value) :=
  [("id", VStr "X"); ("snippet", VDict [("title", VStr "t")])].

(** A record whose snippet carries the category code [code]. *)
Definition with_category (code : string) : value :=
  VDict [("id", VStr "X"); ("snippet", VDict [("categoryId", VStr code)])].

(** An entry of the batch that is a record and not the absence marker:
    [entry is not None]. *)
Definition is_present (entry : value) : bool :=
  match entry with
  | VNone => false
  | _ => true
  end.

(** A container as [__init__] leaves it. *)
Definition constructed (c : Resource) (current : value) (multi : list value)
    : VideoMetadata :=
  {| _index_next_video := 0;
     client := c;
     _current_metadata := current;
     _multi_metadata := multi |}.

(** * Properties *)

(** ** Worked runs of the reconciler *)

Example reconcile_abc :
  _mark_unavailable_videos ["A"; "B"; "C"] [rec_id "A"; rec_id "C"]
  = inr [rec_id "A"; VNone; rec_id "C"].
Proof. vm_compute. reflexivity. Qed.

Example reconcile_unmatched :
  _mark_unavailable_videos ["A"; "B"] [rec_id "Z"] = inl StopIteration.
Proof. vm_compute. reflexivity. Qed.

(** ** The error monad *)

Lemma bind_inr {A B} (f : A → result B) (x : A) : (inr x ≫= f) = f x.
Proof. reflexivity. Qed.

Lemma bind_inl {A B} (f : A → result B) (e : exn) : (inl e ≫= f) = inl e.
Proof. reflexivity. Qed.

Lemma bind_inr_inv {A B} (f : A → result B) (m : result A) (y : B) :
  (m ≫= f) = inr y → ∃ x, m = inr x ∧ f x = inr y.
Proof. destruct m as [e|x]; [discriminate | eauto]. Qed.

(** ** The reconciler *)

Lemma str_eq_refl (r : string) : str_eq r (VStr r) = true.
Proof. apply bool_decide_eq_true. reflexivity. Qed.

Lemma str_eq_ne (r i : string) : r ≠ i → str_eq r (VStr i) = false.
Proof. intros. by apply bool_decide_eq_false. Qed.

(** The inner loop skips the requested ids in front of the first occurrence
    of the record's id, one absence marker each, and stops on it. *)
Lemma while_not_matches_found vid_result i pre rest some_info :
  has_id vid_result i → i ∉ pre →
  while_not_matches vid_result (pre ++ i :: rest) some_info
  = inr (some_info ++ replicate (length pre) VNone ++ [vid_result], rest).
Proof.
  intros Hid. revert some_info.
  induction pre as [|r pre IH]; intros some_info Hnotin; simpl.
  - rewrite Hid, bind_inr, str_eq_refl. reflexivity.
  - apply not_elem_of_cons in Hnotin as [Hne Hnotin].
    rewrite Hid, bind_inr, str_eq_ne by congruence.
    rewrite IH by done. by rewrite <- (assoc_L (++)).
Qed.

(** With no requested id left that equals the record's id, the inner loop
    runs the iterator dry. *)
Lemma while_not_matches_exhausts vid_result v reqs some_info :
  subscript vid_result "id" = inr v →
  (∀ r, r ∈ reqs → str_eq r v = false) →
  while_not_matches vid_result reqs some_info = inl StopIteration.
Proof.
  intros Hid. revert some_info.
  induction reqs as [|r reqs IH]; intros some_info Hno; simpl; [done|].
  rewrite Hid, bind_inr, (Hno r) by left.
  apply IH. intros r' Hr'. apply Hno. by right.
Qed.

Lemma for_vids_result_app returned1 returned2 reqs some_info :
  for_vids_result (returned1 ++ returned2) reqs some_info
  = for_vids_result returned1 reqs some_info ≫=
      (λ '(some_info', reqs'), for_vids_result returned2 reqs' some_info').
Proof.
  revert reqs some_info.
  induction returned1 as [|vid_result returned1 IH]; intros reqs some_info; simpl; [done|].
  destruct (while_not_matches vid_result reqs some_info) as [e|[info' reqs']]; [done|].
  rewrite !bind_inr. apply IH.
Qed.

(** A subsequence that starts with [i] still embeds, minus [i], into what
    follows the first occurrence of [i]. *)
Lemma sublist_first_occurrence (i : string) ids reqs :
  sublist (i :: ids) reqs →
  ∃ pre rest, reqs = pre ++ i :: rest ∧ (i ∉ pre) ∧ sublist ids rest.
Proof.
  induction reqs as [|r reqs IH]; intros Hsub.
  - by apply sublist_nil_r in Hsub.
  - destruct (decide (r = i)) as [->|Hne].
    + exists [], reqs. split_and!; [done | apply not_elem_of_nil |].
      apply sublist_cons_r in Hsub as [Hsub | (ids' & Heq & Hsub)].
      * transitivity (i :: ids); [by apply sublist_cons | done].
      * by injection Heq as ->.
    + apply sublist_cons_r in Hsub as [Hsub | (ids' & Heq & Hsub)]; [|congruence].
      destruct (IH Hsub) as (pre & rest & -> & Hnotin & Hrest).
      exists (r :: pre), rest. split_and!; [done | | done].
      apply not_elem_of_cons. split; [congruence | done].
Qed.

Lemma aligned_weaken vid_result returned entry r :
  aligned returned entry r → aligned (vid_result :: returned) entry r.
Proof. intros [->|[Hin Hid]]; [by left | right; split; [by right | done]]. Qed.

Lemma Forall2_aligned_replicate returned (pre : list string) :
  Forall2 (aligned returned) (replicate (length pre) VNone) pre.
Proof. induction pre; simpl; constructor; [by left | done]. Qed.

(** The outer loop on a returned list that meets the precondition: it
    succeeds, consumes a prefix [pre] of the requested ids and appends one
    aligned entry for each of them. *)
Lemma for_vids_result_aligned returned ids reqs some_info :
  Forall2 has_id returned ids → sublist ids reqs →
  ∃ out pre rest,
    for_vids_result returned reqs some_info = inr (some_info ++ out, rest)
    ∧ reqs = pre ++ rest
    ∧ Forall2 (aligned returned) out pre.
Proof.
  intros Hids. revert reqs some_info.
  induction Hids as [|vid_result i returned ids Hid Hids IH]; intros reqs some_info Hsub.
  - exists [], [], reqs. simpl. rewrite (right_id_L [] (++)). by split_and!.
  - apply sublist_first_occurrence in Hsub as (pre & rest1 & -> & Hnotin & Hsub).
    destruct (IH rest1 (some_info ++ replicate (length pre) VNone ++ [vid_result]) Hsub)
      as (out & pre' & rest & Hrun & -> & Hal).
    exists (replicate (length pre) VNone ++ [vid_result] ++ out), (pre ++ i :: pre'), rest.
    split_and!.
    + simpl. rewrite (while_not_matches_found _ i) by done.
      rewrite bind_inr, Hrun. by rewrite <- !(assoc_L (++)).
    + by rewrite <- (assoc_L (++)).
    + apply Forall2_app; [apply Forall2_aligned_replicate|].
      constructor; [right; split; [by left | done]|].
      eapply Forall2_impl; [exact Hal|]. intros. by apply aligned_weaken.
Qed.

(** The whole reconciler on any returned list whose ids embed in order into
    the requested ids. *)
Lemma mark_unavailable_videos_aligned requested returned ids :
  Forall2 has_id returned ids → sublist ids requested →
  ∃ out, _mark_unavailable_videos requested returned = inr out
         ∧ Forall2 (aligned returned) out requested.
Proof.
  intros Hids Hsub. unfold _mark_unavailable_videos.
  case_bool_decide as Hlen.
  - eexists. split; [reflexivity|].
    apply Forall2_aligned_replicate.
  - destruct (for_vids_result_aligned returned ids requested [] Hids Hsub)
      as (out & pre & rest & Hrun & -> & Hal).
    rewrite Hrun, bind_inr. simpl. eexists. split; [reflexivity|].
    apply Forall2_app; [done | apply Forall2_aligned_replicate].
Qed.

(** C1: for every requested id list and every returned record list that
    meets the precondition (the returned ids are an order-preserving
    subsequence of the requested ids, each is a requested id, none occurs
    twice), [_mark_unavailable_videos] returns a list as long as the request,
    aligned with it position by position, in which every entry that is not
    the absence marker carries the id requested at its position. *)
Theorem mark_unavailable_videos_postcondition requested returned :
  returned_subsequence requested returned →
  ∃ out,
    _mark_unavailable_videos requested returned = inr out
    ∧ length out = length requested
    ∧ Forall2 (aligned returned) out requested
    ∧ ∀ i entry, out !! i = Some entry → entry ≠ VNone →
        ∃ r, requested !! i = Some r ∧ subscript entry "id" = inr (VStr r).
Proof.
  intros (ids & Hids & Hsub & _ & _).
  destruct (mark_unavailable_videos_aligned requested returned ids Hids Hsub)
    as (out & Hrun & Hal).
  exists out. split_and!; [done | by eapply Forall2_length | done |].
  intros i entry Hi Hpresent.
  destruct (Forall2_lookup_l _ _ _ _ _ Hal Hi) as (r & Hr & [->|[_ Hid]]); [done|].
  by exists r.
Qed.

Lemma mark_unavailable_videos_postcondition_witness :
  ∃ out,
    _mark_unavailable_videos ["A"; "B"; "C"] [rec_id "A"; rec_id "C"] = inr out
    ∧ length out = 3
    ∧ Forall2 (aligned [rec_id "A"; rec_id "C"]) out ["A"; "B"; "C"]
    ∧ ∀ i entry, out !! i = Some entry → entry ≠ VNone →
        ∃ r, ["A"; "B"; "C"] !! i = Some r ∧ subscript entry "id" = inr (VStr r).
Proof.
  apply (mark_unavailable_videos_postcondition ["A"; "B"; "C"] [rec_id "A"; rec_id "C"]).
  exists ["A"; "C"]. split_and!.
  - repeat constructor.
  - apply sublist_skip, sublist_cons, sublist_skip, sublist_nil.
  - intros x Hx. apply list_elem_of_In in Hx. apply list_elem_of_In. simpl in *. tauto.
  - apply NoDup_cons. split; [|apply NoDup_singleton].
    intros Hin. apply list_elem_of_singleton in Hin. discriminate.
Defined.

(** C2: when the reconciler reaches a returned record whose id equals none
    of the requested ids still ahead of the cursor (the records before it
    having been matched), the call ends in [StopIteration], the signal of the
    exhausted iterator over the requested ids: no list is returned and no
    other exception is raised. *)
Theorem mark_unavailable_videos_exhausts requested before vid_result after
    some_info reqs v :
  for_vids_result before requested [] = inr (some_info, reqs) →
  subscript vid_result "id" = inr v →
  (∀ r, r ∈ reqs → str_eq r v = false) →
  _mark_unavailable_videos requested (before ++ vid_result :: after)
  = inl StopIteration.
Proof.
  intros Hbefore Hid Hno. unfold _mark_unavailable_videos.
  case_bool_decide as Hlen.
  - rewrite length_app in Hlen. simpl in Hlen. lia.
  - rewrite for_vids_result_app, Hbefore, bind_inr. simpl.
    by rewrite (while_not_matches_exhausts _ v).
Qed.

Lemma mark_unavailable_videos_exhausts_witness :
  _mark_unavailable_videos ["A"; "B"; "C"] ([rec_id "B"] ++ rec_id "A" :: [rec_id "C"])
  = inl StopIteration.
Proof.
  apply (mark_unavailable_videos_exhausts ["A"; "B"; "C"] [rec_id "B"] (rec_id "A")
           [rec_id "C"] [VNone; rec_id "B"] ["C"] (VStr "A")).
  - reflexivity.
  - reflexivity.
  - intros r Hr. apply list_elem_of_singleton in Hr. subst r. reflexivity.
Defined.

(** C6: with an empty returned list the reconciler returns at once, before
    the matching loops, one absence marker per requested id. *)
Theorem mark_unavailable_videos_no_results requested :
  ∃ out,
    _mark_unavailable_videos requested [] = inr out
    ∧ out = replicate (length requested) VNone
    ∧ length out = length requested
    ∧ Forall (λ entry, entry = VNone) out.
Proof.
  exists (replicate (length requested) VNone). split_and!.
  - unfold _mark_unavailable_videos. by rewrite bool_decide_eq_true_2.
  - done.
  - apply length_replicate.
  - apply Forall_replicate. done.
Qed.

(** ** Construction and slicing *)

(** A bind raises [e] only if one of its two parts does. *)
Lemma bind_not_raises {A B} (m : result A) (f : A → result B) (e : exn) :
  m ≠ inl e → (∀ x, f x ≠ inl e) → (m ≫= f) ≠ inl e.
Proof.
  intros Hm Hf. destruct m as [e'|x]; simpl; [|apply Hf].
  intros [= ->]. by apply Hm.
Qed.

Lemma subscript_not_ValueError v k : subscript v k ≠ inl ValueError.
Proof. destruct v as [| | |d]; simpl; try done. by destruct (dict_get d k). Qed.

Lemma py_iter_not_ValueError v : py_iter v ≠ inl ValueError.
Proof. by destruct v. Qed.

Lemma list_getitem_not_ValueError l i : list_getitem l i ≠ inl ValueError.
Proof. unfold list_getitem. by destruct (l !! i). Qed.

Lemma while_not_matches_not_ValueError vid_result reqs some_info :
  while_not_matches vid_result reqs some_info ≠ inl ValueError.
Proof.
  revert some_info. induction reqs as [|r reqs IH]; intros some_info; simpl; [done|].
  apply bind_not_raises; [apply subscript_not_ValueError|].
  intros v. destruct (str_eq r v); [done | apply IH].
Qed.

Lemma for_vids_result_not_ValueError returned reqs some_info :
  for_vids_result returned reqs some_info ≠ inl ValueError.
Proof.
  revert reqs some_info.
  induction returned as [|vid_result returned IH]; intros reqs some_info; simpl; [done|].
  apply bind_not_raises; [apply while_not_matches_not_ValueError|].
  intros [info' reqs']. apply IH.
Qed.

Lemma mark_unavailable_videos_not_ValueError requested returned :
  _mark_unavailable_videos requested returned ≠ inl ValueError.
Proof.
  unfold _mark_unavailable_videos. case_bool_decide; [done|].
  apply bind_not_raises; [apply for_vids_result_not_ValueError|].
  by intros [info reqs].
Qed.

Lemma get_video_metadata_not_ValueError client yt_id :
  _get_video_metadata client yt_id ≠ inl ValueError.
Proof.
  unfold _get_video_metadata.
  apply bind_not_raises; [apply mark_unavailable_videos_not_ValueError|].
  intros multi. apply bind_not_raises; [apply list_getitem_not_ValueError | done].
Qed.

(** The configuration fault comes from the guard on [client] and [dev_key]
    and from nowhere else. *)
Lemma init_ValueError_iff build video_id dev_key json client :
  __init__ build video_id dev_key json client = inl ValueError
  ↔ client = None ∧ dev_key = "".
Proof.
  split.
  - intros Hinit.
    destruct client as [c|]; [|destruct (decide (dev_key = "")) as [->|Hkey]; [done|]];
      exfalso; revert Hinit; unfold __init__.
    all: apply bind_not_raises; [try done; by rewrite bool_decide_eq_false_2|].
    all: intros c'; apply bind_not_raises;
      [destruct (ids_truthy video_id);
         [apply get_video_metadata_not_ValueError | done]|].
    all: intros [multi cur]; apply bind_not_raises; [|done].
    all: destruct json as [[|kv d]|]; try done.
    all: apply bind_not_raises;
      [apply subscript_not_ValueError | apply py_iter_not_ValueError].
  - intros [-> ->]. reflexivity.
Qed.

(** With a client passed along, a pre-fetched response is taken over without
    any request: the batch is its list of items. *)
Lemma init_json_with_client build c items :
  __init__ build (IdStr "") "" (Some [("items", VList items)]) (Some c)
  = inr {| _index_next_video := 0; client := c;
           _current_metadata := VNone; _multi_metadata := items |}.
Proof. by vm_compute. Qed.

(** C4: a constructor call that passes a pre-fetched response as [json] and
    neither [dev_key] nor [client] raises [ValueError]: the guard on the
    client comes first and does not look at [json].  The specification
    expects this call to succeed with the items as the batch. *)
Theorem init_json_alone_raises build items :
  __init__ build (IdStr "") "" (Some [("items", VList items)]) None = inl ValueError.
Proof. apply init_ValueError_iff. by split. Qed.

(** C3: [self[a:b]] raises [ValueError] for every container and every range:
    [__getitem__] passes the sliced records as [json] alone, and the
    constructor refuses a call without [dev_key] and [client].  The
    specification expects a new container of length [b - a]. *)
Theorem getitem_slice_raises build self a b :
  __getitem__ build self (Slice a b) = inl ValueError.
Proof.
  change (__init__ build (IdStr "") ""
            (Some [("items", VList (take (b - a) (drop a (_multi_metadata self))))]) None
          = inl ValueError).
  apply init_ValueError_iff. by split.
Qed.

(** What the slice would hold: the records at positions [a .. b-1]. *)
Lemma list_subscript_slice (l : list value) (a b : nat) :
  a ≤ b ≤ length l →
  ∃ sliced, list_subscript l (Slice a b) = inr (VList sliced)
            ∧ length sliced = b - a
            ∧ ∀ j, j < b - a → sliced !! j = l !! (a + j).
Proof.
  intros Hab. eexists. split_and!; [reflexivity | |].
  - rewrite length_take, length_drop. lia.
  - intros j Hj. by rewrite lookup_take_lt, lookup_drop.
Qed.

(** ** Traversal *)

Lemma next_in_range self r :
  _multi_metadata self !! _index_next_video self = Some r →
  __next__ self
  = (inr (), {| _index_next_video := _index_next_video self + 1;
                client := client self;
                _current_metadata := r;
                _multi_metadata := _multi_metadata self |}).
Proof. intros Hr. unfold __next__, list_getitem. by rewrite Hr. Qed.

Lemma next_out_of_range self :
  _multi_metadata self !! _index_next_video self = None →
  __next__ self = (inl StopIteration, self).
Proof. intros Hr. unfold __next__, list_getitem. by rewrite Hr. Qed.

Lemma next_multi_metadata self :
  _multi_metadata (__next__ self).2 = _multi_metadata self.
Proof.
  destruct (_multi_metadata self !! _index_next_video self) as [r|] eqn:Hr.
  - by rewrite (next_in_range self r).
  - by rewrite next_out_of_range.
Qed.

(** [n] steps that stay inside the batch all succeed: the index moves by [n]
    and the current record is the last one stepped onto. *)
Lemma next_n_in_range n self :
  _index_next_video self + n ≤ length (_multi_metadata self) →
  _index_next_video (next_n n self) = _index_next_video self + n
  ∧ _multi_metadata (next_n n self) = _multi_metadata self
  ∧ (0 < n → _multi_metadata self !! (_index_next_video self + n - 1)
             = Some (_current_metadata (next_n n self))).
Proof.
  revert self. induction n as [|n IH]; intros self Hrange; simpl.
  - split_and!; [lia | done | lia].
  - destruct (lookup_lt_is_Some_2 (_multi_metadata self) (_index_next_video self))
      as [r Hr]; [lia|].
    rewrite (next_in_range self r Hr). simpl.
    set (self' := {| _index_next_video := _ |}).
    destruct (IH self') as (Hidx & Hmulti & Hcur); [simpl; lia|].
    simpl in *. split_and!; [lia | done |].
    intros _. destruct n as [|n].
    + simpl. by replace (_index_next_video self + 1 - 1) with (_index_next_video self) by lia.
    + replace (_index_next_video self + S (S n) - 1)
        with (_index_next_video self + 1 + S n - 1) by lia.
      apply Hcur. lia.
Qed.

(** C10: a call of [__next__] that fails fails with [StopIteration] and
    leaves the instance as it was, index and current record included; so
    after a full pass over a batch that is not empty one more [__next__]
    raises [StopIteration] and the current record, the one the accessors
    read, is still the last record of the batch. *)
Theorem next_exhausted_keeps_state self :
  (∀ e, (__next__ self).1 = inl e →
        e = StopIteration ∧ (__next__ self).2 = self)
  ∧ (∀ r, last (_multi_metadata self) = Some r →
          __next__ (traverse self) = (inl StopIteration, traverse self)
          ∧ _current_video (traverse self) = r
          ∧ _current_video (__next__ (traverse self)).2 = r).
Proof.
  split.
  - intros e. destruct (_multi_metadata self !! _index_next_video self) as [r|] eqn:Hr.
    + by rewrite (next_in_range self r).
    + rewrite next_out_of_range by done. simpl. by intros [= <-].
  - intros r Hlast. unfold traverse.
    set (n := length (_multi_metadata self)).
    set (start := (__iter__ self).2).
    destruct (next_n_in_range n start) as (Hidx & Hmulti & Hcur); [simpl; lia|].
    change (_index_next_video start) with 0 in Hidx, Hcur.
    change (_multi_metadata start) with (_multi_metadata self) in Hmulti, Hcur.
    assert (0 < n) as Hn.
    { subst n. destruct (_multi_metadata self); [done | simpl; lia]. }
    assert (_current_video (next_n n start) = r) as Hr.
    { specialize (Hcur Hn). rewrite last_lookup in Hlast. fold n in Hlast.
      replace (0 + n - 1) with (Init.Nat.pred n) in Hcur by lia.
      unfold _current_video. congruence. }
    assert (__next__ (next_n n start) = (inl StopIteration, next_n n start)) as Hstop.
    { apply next_out_of_range. rewrite Hidx, Hmulti. apply lookup_ge_None_2. lia. }
    by rewrite Hstop.
Qed.

(** C8: after [iter; next; next; iter] the cursor [_index_next_video] has the
    value it has in a freshly constructed container, [0], whatever the two
    [__next__] calls did; the batch is untouched, and the next [__next__]
    steps onto the record at position [0] again. *)
Theorem reset_restores_cursor build video_id dev_key json client fresh self :
  __init__ build video_id dev_key json client = inr fresh →
  _index_next_video (reset_advance_advance_reset self) = _index_next_video fresh
  ∧ _index_next_video (reset_advance_advance_reset self) = 0
  ∧ _multi_metadata (reset_advance_advance_reset self) = _multi_metadata self
  ∧ ∀ r, _multi_metadata self !! 0 = Some r →
         (__next__ (reset_advance_advance_reset self)).1 = inr ()
         ∧ _current_video (__next__ (reset_advance_advance_reset self)).2 = r.
Proof.
  intros Hinit.
  assert (_index_next_video fresh = 0) as Hfresh.
  { unfold __init__ in Hinit.
    apply bind_inr_inv in Hinit as (c & _ & Hinit).
    apply bind_inr_inv in Hinit as ([multi cur] & _ & Hinit).
    apply bind_inr_inv in Hinit as (multi' & _ & Hinit).
    by injection Hinit as <-. }
  assert (_multi_metadata (reset_advance_advance_reset self) = _multi_metadata self)
    as Hmulti.
  { unfold reset_advance_advance_reset. simpl. by rewrite !next_multi_metadata. }
  split_and!; [by rewrite Hfresh | done | done |].
  intros r Hr.
  rewrite (next_in_range _ r); [done|].
  by rewrite Hmulti.
Qed.

Example init_abc :
  __init__ (λ _, two_of_three) (IdList ["A"; "B"; "C"]) "key" None None
  = inr abc_container.
Proof. by vm_compute. Qed.

(** [__iter__] resets the index only: the current record stays the one the
    last successful [__next__] stepped onto. *)
Example reset_keeps_current_record :
  _current_video (reset_advance_advance_reset abc_container) = VNone
  ∧ _current_video abc_container = rec_id "A".
Proof. by vm_compute. Qed.

Lemma reset_restores_cursor_witness :
  _index_next_video (reset_advance_advance_reset abc_container)
  = _index_next_video abc_container
  ∧ _index_next_video (reset_advance_advance_reset abc_container) = 0
  ∧ _multi_metadata (reset_advance_advance_reset abc_container)
    = _multi_metadata abc_container
  ∧ ∀ r, _multi_metadata abc_container !! 0 = Some r →
         (__next__ (reset_advance_advance_reset abc_container)).1 = inr ()
         ∧ _current_video (__next__ (reset_advance_advance_reset abc_container)).2 = r.
Proof.
  apply (reset_restores_cursor (λ _, two_of_three) (IdList ["A"; "B"; "C"]) "key"
           None None abc_container abc_container).
  by vm_compute.
Defined.

(** ** Availability and the field accessors *)

(** The empty record [{}] is reached through the constructor and one
    [__next__]. *)
Example init_empty_record :
  (self ← __init__ (λ _, two_of_three) (IdStr "") ""
            (Some [("items", VList [VDict []])]) (Some two_of_three);
   mret (__next__ self).2)
  = inr (pointing_at (VDict [])).
Proof. by vm_compute. Qed.

(** C7, as stated, fails on the empty record: it is a present record, not
    the absence marker, and [available] answers [False]. *)
Lemma available_empty_record_counterexample :
  ¬ (available (pointing_at (VDict [])) = true
     ↔ _current_video (pointing_at (VDict [])) ≠ VNone).
Proof. intros [_ H]. by discriminate H. Qed.

(** C7, amended: on the absence marker [available] answers [False] and each
    of [id], [title], [description] and [time_published] raises ([TypeError],
    the subscript of [None]); on a record [available] answers [True] exactly
    when the record has at least one field, so in particular whenever it
    carries an id; and [True] is never answered on the absence marker. *)
Theorem available_iff_truthy self :
  (_current_video self = VNone →
     available self = false
     ∧ id self = inl TypeError
     ∧ title self = inl TypeError
     ∧ description self = inl TypeError
     ∧ time_published self = inl TypeError)
  ∧ (∀ d, _current_video self = VDict d → (available self = true ↔ d ≠ []))
  ∧ (∀ i, has_id (_current_video self) i → available self = true)
  ∧ (available self = true → _current_video self ≠ VNone).
Proof.
  unfold available, id, title, description, time_published, snippet_field, has_id.
  split_and!.
  - intros ->. by split_and!.
  - intros d ->. destruct d; simpl; [split; done | split; done].
  - intros i. destruct (_current_video self) as [| | |[|kv d]]; by simpl.
  - intros H Hnone. by rewrite Hnone in H.
Qed.

(** The record [{"id": "X", "snippet": None}] is reached through the
    constructor and one [__next__]. *)
Example init_null_snippet_record :
  (self ← __init__ (λ _, two_of_three) (IdStr "") ""
            (Some [("items", VList [VDict null_snippet_record])]) (Some two_of_three);
   mret (__next__ self).2)
  = inr (pointing_at (VDict null_snippet_record)).
Proof. by vm_compute. Qed.

(** C9, as stated, fails on a present record whose snippet is [None]: the
    record has no tags field, and [keywords] raises [TypeError], which its
    [except KeyError] does not catch, instead of returning the empty list. *)
Lemma keywords_null_snippet_counterexample :
  lacks_field null_snippet_record "tags" = false
  ∧ dict_get null_snippet_record "tags" = None
  ∧ keywords (pointing_at (VDict null_snippet_record)) = inl TypeError
  ∧ keywords (pointing_at (VDict null_snippet_record)) ≠ inr (VList []).
Proof. by split_and!. Qed.

(** C9, amended: on a present record whose snippet is missing, or is a
    mapping without the field, [keywords] returns the empty list and
    [category_id], [channel_id] and [channel_title] return the empty string;
    [category_id] returns the empty string also when the snippet, or the
    code in it, is [None]. *)
Theorem optional_fields_default self d :
  _current_video self = VDict d →
  (lacks_field d "tags" = true → keywords self = inr (VList []))
  ∧ (lacks_field d "categoryId" = true → category_id self = inr (VStr ""))
  ∧ (lacks_field d "channelId" = true → channel_id self = inr (VStr ""))
  ∧ (lacks_field d "channelTitle" = true → channel_title self = inr (VStr ""))
  ∧ (dict_get d "snippet" = Some VNone → category_id self = inr (VStr ""))
  ∧ (∀ snippet, dict_get d "snippet" = Some (VDict snippet) →
       dict_get snippet "categoryId" = Some VNone →
       category_id self = inr (VStr "")).
Proof.
  intros Hcur.
  unfold keywords, category_id, channel_id, channel_title, snippet_field, lacks_field.
  rewrite Hcur. simpl.
  destruct (dict_get d "snippet") as [[| | |snippet]|]; simpl;
    try (split_and!; done).
  split_and!.
  - by destruct (dict_get snippet "tags").
  - by destruct (dict_get snippet "categoryId").
  - by destruct (dict_get snippet "channelId").
  - by destruct (dict_get snippet "channelTitle").
  - done.
  - intros snippet' [= <-] Hcode. by rewrite Hcode.
Qed.

Lemma optional_fields_default_witness :
  keywords (pointing_at (VDict record_X)) = inr (VList [])
  ∧ category_id (pointing_at (VDict record_X)) = inr (VStr "")
  ∧ channel_id (pointing_at (VDict record_X)) = inr (VStr "")
  ∧ channel_title (pointing_at (VDict record_X)) = inr (VStr "").
Proof.
  destruct (optional_fields_default (pointing_at (VDict record_X)) record_X eq_refl)
    as (Hk & Hc & Hi & Ht & _ & _).
  split_and!; [apply Hk | apply Hc | apply Hi | apply Ht]; by vm_compute.
Defined.

(** C5, as stated, fails at code ["24"]: it names "Entertainment". *)
Lemma category_24_counterexample :
  category_name (pointing_at (with_category "24")) ≠ inr (VStr "Comedy").
Proof.
  replace (category_name (pointing_at (with_category "24")))
    with (inr (VStr "Entertainment") : result value) by (vm_compute; reflexivity).
  intros [=].
Qed.

(** With the code present in the snippet, [category_id] returns it. *)
Lemma category_id_present self d snippet code :
  _current_video self = VDict d →
  dict_get d "snippet" = Some (VDict snippet) →
  dict_get snippet "categoryId" = Some (VStr code) →
  category_id self = inr (VStr code).
Proof.
  intros Hcur Hsnippet Hcode. unfold category_id. rewrite Hcur. simpl.
  rewrite Hsnippet. simpl. by rewrite Hcode.
Qed.

(** C5, amended: the two codes that resolve to "Comedy" are ["23"] and
    ["34"] (["24"] resolves to "Entertainment"); a code that is not a key of
    the table, such as ["999"], makes [category_name] raise [KeyError]. *)
Theorem category_name_lookup self d snippet code :
  _current_video self = VDict d →
  dict_get d "snippet" = Some (VDict snippet) →
  dict_get snippet "categoryId" = Some (VStr code) →
  (code = "23" ∨ code = "34" → category_name self = inr (VStr "Comedy"))
  ∧ (code = "24" → category_name self = inr (VStr "Entertainment"))
  ∧ (_CATEGORY_ID_TO_NAME !! code = None → category_name self = inl KeyError)
  ∧ _CATEGORY_ID_TO_NAME !! "999" = None.
Proof.
  intros Hcur Hsnippet Hcode.
  assert (category_name self = category_table_getitem (VStr code)) as ->.
  { unfold category_name.
    by rewrite (category_id_present self d snippet code), bind_inr. }
  split_and!.
  - intros [-> | ->]; vm_compute; reflexivity.
  - intros ->. vm_compute. reflexivity.
  - intros Hnone. unfold category_table_getitem. by rewrite Hnone.
  - vm_compute. reflexivity.
Qed.

Lemma category_name_lookup_witness :
  category_name (pointing_at (with_category "34")) = inr (VStr "Comedy")
  ∧ category_name (pointing_at (with_category "999")) = inl KeyError.
Proof.
  split.
  - apply (category_name_lookup (pointing_at (with_category "34")) _ _ "34"
             eq_refl eq_refl eq_refl).
    by right.
  - apply (category_name_lookup (pointing_at (with_category "999")) _ _ "999"
             eq_refl eq_refl eq_refl).
    vm_compute. reflexivity.
Defined.

(** * Further properties of the module *)

(** ** The reconciler, without its precondition *)

Lemma has_id_is_present vid_result i : has_id vid_result i → is_present vid_result = true.
Proof. unfold has_id. by destruct vid_result. Qed.

Lemma filter_is_present_replicate n :
  filter (λ entry, is_present entry = true) (replicate n VNone) = [].
Proof. induction n as [|n IH]; [done|]. simpl. by rewrite filter_cons_False. Qed.

(** A successful run of the inner loop found the record's id among the
    requested ids it was given, and wrote one marker per id in front of it. *)
Lemma while_not_matches_inv vid_result reqs some_info some_info' reqs' :
  while_not_matches vid_result reqs some_info = inr (some_info', reqs') →
  ∃ i pre,
    has_id vid_result i
    ∧ reqs = pre ++ i :: reqs'
    ∧ some_info' = some_info ++ replicate (length pre) VNone ++ [vid_result].
Proof.
  revert some_info. induction reqs as [|r reqs IH]; intros some_info Hrun; [done|].
  simpl in Hrun.
  apply bind_inr_inv in Hrun as (v & Hid & Hrun).
  destruct (str_eq r v) eqn:Heq.
  - destruct v as [|s| |]; try done.
    apply bool_decide_eq_true in Heq as <-.
    injection Hrun as <- <-. by exists r, [].
  - apply IH in Hrun as (i & pre & Hi & -> & ->).
    exists i, (r :: pre). split_and!; [done | done |].
    simpl. by rewrite <- (assoc_L (++)).
Qed.

(** A successful run of the outer loop: the returned ids embed in order into
    the requested ids it consumed, and the entries it appended are the
    returned records with markers in between. *)
Lemma for_vids_result_inv returned reqs some_info some_info' reqs' :
  for_vids_result returned reqs some_info = inr (some_info', reqs') →
  ∃ ids out pre,
    Forall2 has_id returned ids
    ∧ reqs = pre ++ reqs'
    ∧ sublist ids pre
    ∧ some_info' = some_info ++ out
    ∧ length out = length pre
    ∧ filter (λ entry, is_present entry = true) out = returned.
Proof.
  revert reqs some_info.
  induction returned as [|vid_result returned IH]; intros reqs some_info Hrun.
  - injection Hrun as <- <-. exists [], [], [].
    split_and!; try done. by rewrite (right_id_L [] (++)).
  - simpl in Hrun. apply bind_inr_inv in Hrun as ([info1 reqs1] & Hwhile & Hrun).
    apply while_not_matches_inv in Hwhile as (i & pre1 & Hi & -> & ->).
    apply IH in Hrun as (ids & out & pre & Hids & -> & Hsub & -> & Hlen & Hfilter).
    exists (i :: ids), (replicate (length pre1) VNone ++ [vid_result] ++ out),
      (pre1 ++ i :: pre).
    split_and!.
    + by constructor.
    + by rewrite <- (assoc_L (++)).
    + apply sublist_inserts_l. by apply sublist_skip.
    + by rewrite <- !(assoc_L (++)).
    + rewrite !length_app, length_replicate. simpl. lia.
    + rewrite filter_app, filter_is_present_replicate. simpl.
      rewrite filter_cons_True by (by eapply has_id_is_present).
      by rewrite Hfilter.
Qed.

Lemma mark_unavailable_videos_inv requested returned out :
  _mark_unavailable_videos requested returned = inr out →
  ∃ ids,
    Forall2 has_id returned ids
    ∧ sublist ids requested
    ∧ length out = length requested
    ∧ filter (λ entry, is_present entry = true) out = returned.
Proof.
  unfold _mark_unavailable_videos. case_bool_decide as Hlen.
  - intros [= <-]. apply nil_length_inv in Hlen as ->. exists [].
    split_and!; [constructor | apply sublist_nil_l | apply length_replicate |].
    apply filter_is_present_replicate.
  - intros Hrun. apply bind_inr_inv in Hrun as ([info reqs] & Hfor & [= <-]).
    apply for_vids_result_inv in Hfor as (ids & out & pre & Hids & -> & Hsub & -> & Hl & Hf).
    exists ids. split_and!; [done | by apply sublist_inserts_r | |].
    + rewrite !length_app, length_replicate. simpl. lia.
    + simpl. by rewrite filter_app, filter_is_present_replicate, (right_id_L [] (++)).
Qed.

(** X1: whenever the reconciler returns, its output is as long as the
    request and, with the absence markers taken out, is the returned list
    itself: no record is dropped, repeated or reordered. *)
Theorem mark_unavailable_videos_keeps_records requested returned out :
  _mark_unavailable_videos requested returned = inr out →
  length out = length requested
  ∧ filter (λ entry, is_present entry = true) out = returned.
Proof.
  intros Hrun. by apply mark_unavailable_videos_inv in Hrun as (ids & _ & _ & ? & ?).
Qed.

Lemma mark_unavailable_videos_keeps_records_witness :
  length [rec_id "A"; VNone; rec_id "C"] = length ["A"; "B"; "C"]
  ∧ filter (λ entry, is_present entry = true) [rec_id "A"; VNone; rec_id "C"]
    = [rec_id "A"; rec_id "C"].
Proof.
  apply (mark_unavailable_videos_keeps_records ["A"; "B"; "C"] [rec_id "A"; rec_id "C"]).
  vm_compute. reflexivity.
Defined.

(** X2: the reconciler returns a list exactly when the returned records
    carry string ids that are, in order, a subsequence of the requested
    ids; otherwise it raises. *)
Theorem mark_unavailable_videos_returns_iff requested returned :
  (∃ out, _mark_unavailable_videos requested returned = inr out)
  ↔ ∃ ids, Forall2 has_id returned ids ∧ sublist ids requested.
Proof.
  split.
  - intros [out Hrun].
    apply mark_unavailable_videos_inv in Hrun as (ids & ? & ? & _). by exists ids.
  - intros (ids & Hids & Hsub).
    destruct (mark_unavailable_videos_aligned requested returned ids Hids Hsub)
      as (out & Hrun & _).
    by exists out.
Qed.

Lemma filter_length_eq {A} (P : A → Prop) `{!∀ x, Decision (P x)} (l : list A) :
  length (filter P l) = length l → filter P l = l.
Proof.
  induction l as [|x l IH]; [done|]. rewrite filter_cons.
  destruct (decide (P x)); simpl; intros Hlen.
  - f_equal. apply IH. lia.
  - pose proof (length_filter P l). lia.
Qed.

(** X3: when as many records come back as ids were requested and the
    reconciler returns, its output is the returned list unchanged. *)
Theorem mark_unavailable_videos_all_found requested returned out :
  _mark_unavailable_videos requested returned = inr out →
  length returned = length requested →
  out = returned.
Proof.
  intros Hrun Hlen.
  apply mark_unavailable_videos_inv in Hrun as (ids & _ & _ & Hout & Hfilter).
  rewrite <- Hfilter. symmetry. apply filter_length_eq. rewrite Hfilter. lia.
Qed.

Lemma mark_unavailable_videos_all_found_witness :
  [rec_id "A"; rec_id "B"] = [rec_id "A"; rec_id "B"].
Proof.
  apply (mark_unavailable_videos_all_found ["A"; "B"] [rec_id "A"; rec_id "B"]).
  - vm_compute. reflexivity.
  - reflexivity.
Defined.

(** X4: with no id requested, any returned record makes the reconciler
    raise [StopIteration]: the iterator is asked before the record is
    looked at. *)
Theorem mark_unavailable_videos_nothing_requested returned :
  returned ≠ [] →
  _mark_unavailable_videos [] returned = inl StopIteration.
Proof. intros Hne. by destruct returned. Qed.

Lemma mark_unavailable_videos_nothing_requested_witness :
  _mark_unavailable_videos [] [VNone] = inl StopIteration.
Proof. by apply (mark_unavailable_videos_nothing_requested [VNone]). Defined.

(** X5: a returned record that cannot give an id (a dict without the key
    ["id"]: [KeyError]; a value that is no dict: [TypeError]) makes the
    reconciler raise that exception when it is reached while requested ids
    are left. *)
Theorem mark_unavailable_videos_record_without_id requested before vid_result
    after some_info r reqs e :
  for_vids_result before requested [] = inr (some_info, r :: reqs) →
  subscript vid_result "id" = inl e →
  _mark_unavailable_videos requested (before ++ vid_result :: after) = inl e.
Proof.
  intros Hbefore Hid. unfold _mark_unavailable_videos.
  case_bool_decide as Hlen.
  - rewrite length_app in Hlen. simpl in Hlen. lia.
  - rewrite for_vids_result_app, Hbefore, bind_inr. simpl. by rewrite Hid.
Qed.

Lemma mark_unavailable_videos_record_without_id_witness :
  _mark_unavailable_videos ["A"; "B"] ([rec_id "A"] ++ VDict [("snippet", VDict [])] :: [])
  = inl KeyError.
Proof.
  by apply (mark_unavailable_videos_record_without_id ["A"; "B"] [rec_id "A"]
              (VDict [("snippet", VDict [])]) [] [rec_id "A"] "B" [] KeyError).
Defined.

(** ** Construction *)

(** The constructor once the client is settled. *)
Lemma init_with_client build video_id dev_key json c :
  __init__ build video_id dev_key json (Some c)
  = '(multi, current) ←
      (if ids_truthy video_id then _get_video_metadata c video_id
       else mret ([], VNone));
    multi' ←
      match json with
      | Some ((_ :: _) as d) => items ← subscript (VDict d) "items"; py_iter items
      | _ => mret multi
      end;
    mret (constructed c current multi').
Proof. reflexivity. Qed.

(** A developer key serves to build the client and for nothing else. *)
Lemma init_with_dev_key build video_id dev_key json :
  dev_key ≠ "" →
  __init__ build video_id dev_key json None
  = __init__ build video_id dev_key json (Some (build dev_key)).
Proof.
  intros Hkey. unfold __init__. by rewrite bool_decide_eq_false_2.
Qed.

(** X6: constructed from a list of ids that is not empty, with a client whose
    answer meets the reconciler's precondition, the container holds one
    entry per requested id, starts at index [0], and its current record is
    the first entry of the batch. *)
Theorem init_fetch_list build requested dev_key c :
  requested ≠ [] →
  returned_subsequence requested (videos_list_items c (join_comma requested)) →
  ∃ self,
    __init__ build (IdList requested) dev_key None (Some c) = inr self
    ∧ __len__ self = length requested
    ∧ _index_next_video self = 0
    ∧ client self = c
    ∧ _multi_metadata self !! 0 = Some (_current_video self)
    ∧ _mark_unavailable_videos requested (videos_list_items c (join_comma requested))
      = inr (_multi_metadata self).
Proof.
  intros Hne (ids & Hids & Hsub & _ & _).
  destruct (mark_unavailable_videos_aligned _ _ ids Hids Hsub) as (out & Hrun & Hal).
  apply Forall2_length in Hal.
  destruct out as [|first out]; [by destruct requested|].
  exists (constructed c first (first :: out)).
  split_and!; try done.
  rewrite init_with_client.
  replace (ids_truthy (IdList requested)) with true
    by (by destruct requested).
  unfold _get_video_metadata. simpl. by rewrite Hrun.
Qed.

Lemma init_fetch_list_witness :
  ∃ self,
    __init__ (λ _, two_of_three) (IdList ["A"; "B"; "C"]) "" None (Some two_of_three)
    = inr self
    ∧ __len__ self = 3
    ∧ _index_next_video self = 0
    ∧ client self = two_of_three
    ∧ _multi_metadata self !! 0 = Some (_current_video self)
    ∧ _mark_unavailable_videos ["A"; "B"; "C"]
        (videos_list_items two_of_three (join_comma ["A"; "B"; "C"]))
      = inr (_multi_metadata self).
Proof.
  apply (init_fetch_list (λ _, two_of_three) ["A"; "B"; "C"] "" two_of_three).
  - discriminate.
  - exists ["A"; "C"]. split_and!.
    + repeat constructor.
    + apply sublist_skip, sublist_cons, sublist_skip, sublist_nil.
    + intros x Hx. apply list_elem_of_In in Hx. apply list_elem_of_In. simpl in *. tauto.
    + apply NoDup_cons. split; [|apply NoDup_singleton].
      intros Hin. apply list_elem_of_singleton in Hin. discriminate.
Defined.

Lemma chars_step a s' :
  chars (String a s')
  = match s' with
    | EmptyString => [String a EmptyString]
    | String b _ =>
        match chars s' with
        | [] => [String a EmptyString]
        | c :: cs =>
            if is_continuation b then String a c :: cs
            else String a EmptyString :: c :: cs
        end
    end.
Proof. by destruct s'. Qed.

(** The characters of a string are not empty, and put end to end they have
    the bytes of the string. *)
Lemma chars_spec s :
  Forall (λ c, 1 ≤ String.length c) (chars s)
  ∧ sum_list (String.length <$> chars s) = String.length s.
Proof.
  induction s as [|a s' [IHne IHsum]]; [by split|].
  rewrite chars_step. destruct s' as [|b s'']; [split; [by repeat constructor | done]|].
  destruct (chars (String b s'')) as [|c cs]; [done|].
  apply Forall_cons in IHne as [Hc Hcs].
  change (String.length (String a (String b s''))) with (S (String.length (String b s''))).
  rewrite <- IHsum.
  destruct (is_continuation b); split.
  - constructor; [simpl; lia | done].
  - done.
  - by repeat constructor.
  - done.
Qed.

Lemma chars_not_nil s : s ≠ "" → chars s ≠ [].
Proof.
  intros Hs Hnil. destruct (chars_spec s) as [_ Hsum].
  rewrite Hnil in Hsum. by destruct s.
Qed.




Example chars_code_points : chars "a日b" = ["a"; "日"; "b"].
Proof. vm_compute. reflexivity. Qed.



(** A one-character id passed as a string is found, whatever the number of
    bytes of its encoding. *)
Example init_id_string_one_character :
  __init__ (λ _, two_of_three) (IdStr "日") "" None
    (Some {| videos_list_items := λ _, [rec_id "日"] |})
  = inr (constructed {| videos_list_items := λ _, [rec_id "日"] |}
           (rec_id "日") [rec_id "日"]).
Proof. vm_compute. reflexivity. Qed.

(** X8: a single id passed as a string that the client does not resolve
    gives a batch of one absence marker per character of the string. *)
Theorem init_id_string_not_found build s dev_key c :
  s ≠ "" →
  videos_list_items c s = [] →
  __init__ build (IdStr s) dev_key None (Some c)
  = inr (constructed c VNone (replicate (length (chars s)) VNone)).
Proof.
  intros Hs Hitems. rewrite init_with_client.
  replace (ids_truthy (IdStr s)) with true
    by (simpl; by rewrite bool_decide_eq_false_2).
  unfold _get_video_metadata, _mark_unavailable_videos.
  change (_convert_list_to_comma_string (IdStr s)) with s.
  change (ids_elements (IdStr s)) with (chars s).
  rewrite Hitems. rewrite bool_decide_eq_true_2 by done.
  pose proof (chars_not_nil s Hs) as Hnil.
  destruct (chars s) as [|c0 cs]; [done|]. reflexivity.
Qed.

Lemma init_id_string_not_found_witness :
  __init__ (λ _, two_of_three) (IdStr "xyz") "" None
    (Some {| videos_list_items := λ _, [] |})
  = inr (constructed {| videos_list_items := λ _, [] |} VNone [VNone; VNone; VNone]).
Proof.
  apply (init_id_string_not_found (λ _, two_of_three) "xyz" ""
           {| videos_list_items := λ _, [] |}).
  - discriminate.
  - reflexivity.
Defined.

(** X9: the [json] argument next to a client, without ids.  An empty dict
    counts as no [json] and leaves an empty batch; a dict without the key
    ["items"] raises [KeyError]; a dict whose ["items"] is a list makes that
    list the batch.  The index starts at [0] and the current record as
    [None]. *)
Theorem init_json_cases build dev_key c d :
  __init__ build (IdStr "") dev_key (Some []) (Some c) = inr (constructed c VNone [])
  ∧ (d ≠ [] → dict_get d "items" = None →
     __init__ build (IdStr "") dev_key (Some d) (Some c) = inl KeyError)
  ∧ (∀ items, dict_get d "items" = Some (VList items) →
     __init__ build (IdStr "") dev_key (Some d) (Some c)
     = inr (constructed c VNone items)).
Proof.
  split_and!.
  - reflexivity.
  - intros Hd Hitems. rewrite init_with_client. simpl.
    destruct d as [|kv d]; [done|]. by rewrite Hitems.
  - intros items Hitems. rewrite init_with_client. simpl.
    destruct d as [|kv d]; [done|]. by rewrite Hitems.
Qed.

(** X10: without ids and without [json] the constructor makes an empty
    container, whatever the client: its length is [0], nothing is available
    and the first [__next__] raises [StopIteration]. *)
Theorem init_empty build video_id dev_key c :
  ids_truthy video_id = false →
  ∃ self,
    __init__ build video_id dev_key None (Some c) = inr self
    ∧ __len__ self = 0
    ∧ available self = false
    ∧ __next__ self = (inl StopIteration, self).
Proof.
  intros Hids. exists (constructed c VNone []).
  rewrite init_with_client, Hids. by split_and!.
Qed.

Lemma init_empty_witness :
  ∃ self,
    __init__ (λ _, two_of_three) (IdList []) "" None (Some two_of_three) = inr self
    ∧ __len__ self = 0
    ∧ available self = false
    ∧ __next__ self = (inl StopIteration, self).
Proof. by apply (init_empty (λ _, two_of_three) (IdList []) "" two_of_three). Defined.

(** ** Traversal and indexing *)

(** X11: [__next__] succeeds exactly when the index is inside the batch;
    then it makes the record at the index the current one and moves the
    index by one, and it leaves the batch and the client alone. *)
Theorem next_succeeds_iff self :
  ((__next__ self).1 = inr () ↔ _index_next_video self < __len__ self)
  ∧ ((__next__ self).1 = inr () →
     _multi_metadata self !! _index_next_video self
       = Some (_current_video (__next__ self).2)
     ∧ _index_next_video (__next__ self).2 = _index_next_video self + 1
     ∧ _multi_metadata (__next__ self).2 = _multi_metadata self
     ∧ client (__next__ self).2 = client self).
Proof.
  unfold __len__.
  destruct (_multi_metadata self !! _index_next_video self) as [r|] eqn:Hr.
  - rewrite (next_in_range self r Hr). simpl. split; [|done].
    split; [|done]. intros _. by eapply lookup_lt_Some.
  - rewrite (next_out_of_range self Hr). simpl. split; [|done].
    split; [done|]. intros Hlt. apply lookup_ge_None_1 in Hr. lia.
Qed.

(** X12: one pass visits the records in order: after [__iter__] and [k + 1]
    calls of [__next__] the current record is the entry at position [k] and
    the index is [k + 1]. *)
Theorem traversal_visits_in_order self k r :
  _multi_metadata self !! k = Some r →
  _current_video (next_n (S k) (__iter__ self).2) = r
  ∧ _index_next_video (next_n (S k) (__iter__ self).2) = S k.
Proof.
  intros Hr. pose proof (lookup_lt_Some _ _ _ Hr) as Hlt.
  set (start := (__iter__ self).2).
  destruct (next_n_in_range (S k) start) as (Hidx & _ & Hcur); [simpl; lia|].
  change (_index_next_video start) with 0 in Hidx, Hcur.
  change (_multi_metadata start) with (_multi_metadata self) in Hcur.
  split; [|done].
  specialize (Hcur ltac:(lia)).
  replace (0 + S k - 1) with k in Hcur by lia.
  unfold _current_video. congruence.
Qed.

Lemma traversal_visits_in_order_witness :
  _current_video (next_n 3 (__iter__ abc_container).2) = rec_id "C"
  ∧ _index_next_video (next_n 3 (__iter__ abc_container).2) = 3.
Proof. by apply (traversal_visits_in_order abc_container 2 (rec_id "C")). Defined.

(** X13: the index never leaves the batch: from an index within
    [0 .. len], any number [n] of [__next__] calls, failed ones included,
    leaves it at [min (index + n) len]; batch and client stay as they
    were. *)
Theorem next_n_index_bounded n self :
  _index_next_video self ≤ __len__ self →
  _index_next_video (next_n n self) = (_index_next_video self + n) `min` __len__ self
  ∧ _multi_metadata (next_n n self) = _multi_metadata self
  ∧ client (next_n n self) = client self.
Proof.
  unfold __len__. revert self. induction n as [|n IH]; intros self Hle; simpl.
  - split_and!; [lia | done | done].
  - destruct (_multi_metadata self !! _index_next_video self) as [r|] eqn:Hr.
    + pose proof (lookup_lt_Some _ _ _ Hr) as Hlt.
      rewrite (next_in_range self r Hr). simpl.
      set (self' := {| _index_next_video := _ |}).
      destruct (IH self') as (Hidx & Hmulti & Hclient); [simpl; lia|].
      simpl in *. split_and!; [lia | done | done].
    + pose proof (lookup_ge_None_1 _ _ Hr) as Hge.
      rewrite (next_out_of_range self Hr). simpl.
      destruct (IH self Hle) as (Hidx & Hmulti & Hclient).
      split_and!; [lia | done | done].
Qed.

Lemma next_n_index_bounded_witness :
  _index_next_video (next_n 5 abc_container) = (0 + 5) `min` 3
  ∧ _multi_metadata (next_n 5 abc_container) = _multi_metadata abc_container
  ∧ client (next_n 5 abc_container) = client abc_container.
Proof. apply (next_n_index_bounded 5 abc_container). simpl. lia. Defined.

(** X14: [self[i]] for an integer [i] never gives a container either: an
    index inside [-len .. len-1] ends in the constructor's [ValueError], any
    other in the [IndexError] of the list. *)
Theorem getitem_index_raises build self i :
  __getitem__ build self (Index i)
  = inl (if bool_decide (- Z.of_nat (__len__ self) ≤ i < Z.of_nat (__len__ self))%Z
         then ValueError else IndexError).
Proof.
  unfold __getitem__, list_subscript, __len__.
  set (n := Z.of_nat (length (_multi_metadata self))).
  assert (∀ j, j < length (_multi_metadata self) →
            (list_getitem (_multi_metadata self) j ≫= λ sliced,
               __init__ build (IdStr "") "" (Some [("items", sliced)]) None)
            = inl ValueError) as Hin.
  { intros j Hj. unfold list_getitem.
    destruct (lookup_lt_is_Some_2 (_multi_metadata self) j Hj) as [x ->].
    change (__init__ build (IdStr "") "" (Some [("items", x)]) None = inl ValueError).
    apply init_ValueError_iff. by split. }
  case_bool_decide as Hpos.
  - rewrite bool_decide_eq_true_2 by lia. apply Hin. lia.
  - case_bool_decide as Hneg.
    + rewrite bool_decide_eq_true_2 by lia. apply Hin. lia.
    + rewrite bool_decide_eq_false_2 by lia. reflexivity.
Qed.

(** ** The request string *)

Lemma string_app_assoc (a b c : string) :
  (a +:+ b +:+ c)%string = ((a +:+ b) +:+ c)%string.
Proof.
  induction a as [|x a IH]; [done|].
  change (String x (a +:+ b +:+ c) = String x ((a +:+ b) +:+ c)).
  by rewrite IH.
Qed.

(** X15: joining two lists of ids that are not empty is joining each and
    putting a comma in between. *)
Theorem join_comma_app (l1 l2 : list string) :
  l1 ≠ [] → l2 ≠ [] →
  join_comma (l1 ++ l2) = (join_comma l1 +:+ "," +:+ join_comma l2)%string.
Proof.
  intros Hl1 Hl2. induction l1 as [|x l1 IH]; [done|].
  destruct l1 as [|y l1].
  - simpl. by destruct l2.
  - change (join_comma ((x :: y :: l1) ++ l2))
      with (x +:+ "," +:+ join_comma ((y :: l1) ++ l2))%string.
    rewrite IH by done.
    change (join_comma (x :: y :: l1)) with (x +:+ "," +:+ join_comma (y :: l1))%string.
    by rewrite <- string_app_assoc.
Qed.

Lemma join_comma_app_witness :
  join_comma (["a"; "b"] ++ ["c"]) = (join_comma ["a"; "b"] +:+ "," +:+ join_comma ["c"])%string.
Proof. by apply (join_comma_app ["a"; "b"] ["c"]). Defined.

(** ** The field accessors *)

Lemma snippet_field_present self d snippet field v :
  _current_video self = VDict d →
  dict_get d "snippet" = Some (VDict snippet) →
  dict_get snippet field = Some v →
  snippet_field self field = inr v.
Proof.
  intros Hcur Hsnippet Hfield. unfold snippet_field.
  rewrite Hcur. simpl. rewrite Hsnippet. simpl. by rewrite Hfield.
Qed.

Lemma snippet_field_lacking self d field :
  _current_video self = VDict d →
  lacks_field d field = true →
  snippet_field self field = inl KeyError.
Proof.
  intros Hcur Hlacks. unfold snippet_field, lacks_field in *.
  rewrite Hcur. simpl.
  destruct (dict_get d "snippet") as [[| | |snippet]|]; simpl; try done.
  by destruct (dict_get snippet field).
Qed.

(** X16: on a record with a snippet every accessor returns what the record
    stores under its field: [id] the top-level ["id"], the others their
    snippet field ([category_id] provided the stored code is not [None]). *)
Theorem accessors_return_stored_fields self d snippet :
  _current_video self = VDict d →
  dict_get d "snippet" = Some (VDict snippet) →
  (∀ v, dict_get d "id" = Some v → id self = inr v)
  ∧ (∀ v, dict_get snippet "title" = Some v → title self = inr v)
  ∧ (∀ v, dict_get snippet "description" = Some v → description self = inr v)
  ∧ (∀ v, dict_get snippet "publishedAt" = Some v → time_published self = inr v)
  ∧ (∀ v, dict_get snippet "channelId" = Some v → channel_id self = inr v)
  ∧ (∀ v, dict_get snippet "channelTitle" = Some v → channel_title self = inr v)
  ∧ (∀ v, dict_get snippet "tags" = Some v → keywords self = inr v)
  ∧ (∀ v, dict_get snippet "categoryId" = Some v → v ≠ VNone →
          category_id self = inr v).
Proof.
  intros Hcur Hsnippet. split_and!; intros v Hv.
  - unfold id. rewrite Hcur. simpl. by rewrite Hv.
  - by apply (snippet_field_present self d snippet).
  - by apply (snippet_field_present self d snippet).
  - by apply (snippet_field_present self d snippet).
  - unfold channel_id. by rewrite (snippet_field_present self d snippet _ v).
  - unfold channel_title. by rewrite (snippet_field_present self d snippet _ v).
  - unfold keywords. by rewrite (snippet_field_present self d snippet _ v).
  - intros Hnone. unfold category_id. rewrite Hcur. simpl.
    rewrite Hsnippet. simpl. rewrite Hv. simpl. by destruct v.
Qed.

(** A record with every field the accessors read. *)
Lemma accessors_return_stored_fields_witness :
  id (pointing_at (VDict [("id", VStr "X");
        ("snippet", VDict [("title", VStr "t"); ("tags", VList [VStr "k"])])]))
  = inr (VStr "X")
  ∧ keywords (pointing_at (VDict [("id", VStr "X");
        ("snippet", VDict [("title", VStr "t"); ("tags", VList [VStr "k"])])]))
    = inr (VList [VStr "k"]).
Proof.
  destruct (accessors_return_stored_fields
              (pointing_at (VDict [("id", VStr "X");
                 ("snippet", VDict [("title", VStr "t"); ("tags", VList [VStr "k"])])]))
              _ _ eq_refl eq_refl) as (Hid & _ & _ & _ & _ & _ & Htags & _).
  split; [by apply Hid | by apply Htags].
Defined.

(** X17: on a present record the mandatory accessors raise [KeyError] when
    their field is missing: [id] without the key ["id"], [title],
    [description] and [time_published] without the snippet or without their
    field in it. *)
Theorem mandatory_fields_missing_raise self d :
  _current_video self = VDict d →
  (dict_get d "id" = None → id self = inl KeyError)
  ∧ (lacks_field d "title" = true → title self = inl KeyError)
  ∧ (lacks_field d "description" = true → description self = inl KeyError)
  ∧ (lacks_field d "publishedAt" = true → time_published self = inl KeyError).
Proof.
  intros Hcur. split_and!.
  - intros Hid. unfold id. rewrite Hcur. simpl. by rewrite Hid.
  - by apply snippet_field_lacking.
  - by apply snippet_field_lacking.
  - by apply snippet_field_lacking.
Qed.

Lemma mandatory_fields_missing_raise_witness :
  description (pointing_at (VDict record_X)) = inl KeyError
  ∧ time_published (pointing_at (VDict record_X)) = inl KeyError.
Proof.
  destruct (mandatory_fields_missing_raise (pointing_at (VDict record_X)) record_X eq_refl)
    as (_ & _ & Hd & Hp).
  split; [by apply Hd | by apply Hp].
Defined.

(** X18: on the absence marker the optional accessors raise as well: the
    [except KeyError] of [channel_id], [channel_title] and [keywords] does
    not catch the [TypeError] of subscripting [None], and [category_id] and
    [category_name] raise [AttributeError] at [None.get]. *)
Theorem optional_accessors_on_absence_marker self :
  _current_video self = VNone →
  channel_id self = inl TypeError
  ∧ channel_title self = inl TypeError
  ∧ keywords self = inl TypeError
  ∧ category_id self = inl AttributeError
  ∧ category_name self = inl AttributeError.
Proof.
  intros Hcur.
  assert (category_id self = inl AttributeError) as Hcid.
  { unfold category_id. by rewrite Hcur. }
  unfold channel_id, channel_title, keywords, snippet_field, category_name.
  rewrite Hcid, Hcur. by split_and!.
Qed.

Lemma optional_accessors_on_absence_marker_witness :
  channel_id (pointing_at VNone) = inl TypeError
  ∧ channel_title (pointing_at VNone) = inl TypeError
  ∧ keywords (pointing_at VNone) = inl TypeError
  ∧ category_id (pointing_at VNone) = inl AttributeError
  ∧ category_name (pointing_at VNone) = inl AttributeError.
Proof. by apply (optional_accessors_on_absence_marker (pointing_at VNone)). Defined.

Lemma category_id_lacking self d :
  _current_video self = VDict d →
  lacks_field d "categoryId" = true →
  category_id self = inr (VStr "").
Proof.
  intros Hcur Hlacks. unfold category_id, lacks_field in *.
  rewrite Hcur. simpl.
  destruct (dict_get d "snippet") as [[| | |snippet]|]; simpl; try done.
  by destruct (dict_get snippet "categoryId").
Qed.

(** X19: on a present record without a category code [category_name] raises
    [KeyError]: [category_id] falls back to the empty string, which is no
    key of the table. *)
Theorem category_name_without_code_raises self d :
  _current_video self = VDict d →
  lacks_field d "categoryId" = true →
  category_name self = inl KeyError.
Proof.
  intros Hcur Hlacks. unfold category_name.
  rewrite (category_id_lacking self d Hcur Hlacks), bind_inr.
  vm_compute. reflexivity.
Qed.

Lemma category_name_without_code_raises_witness :
  category_name (pointing_at (VDict record_X)) = inl KeyError.
Proof.
  by apply (category_name_without_code_raises (pointing_at (VDict record_X)) record_X).
Defined.

(** ** Construction, continued *)

(** X21: given both ids and [json], the constructor fetches and reconciles
    first and then replaces the batch by the items of [json]; the current
    record stays the first entry of the fetched batch. *)
Theorem init_json_replaces_fetched_batch build video_id dev_key d c multi current items :
  ids_truthy video_id = true →
  _get_video_metadata c video_id = inr (multi, current) →
  dict_get d "items" = Some (VList items) →
  __init__ build video_id dev_key (Some d) (Some c) = inr (constructed c current items)
  ∧ multi !! 0 = Some current.
Proof.
  intros Hids Hfetch Hitems. split.
  - rewrite init_with_client, Hids, Hfetch, bind_inr.
    destruct d as [|kv d]; [done|]. unfold subscript. by rewrite Hitems.
  - unfold _get_video_metadata in Hfetch.
    apply bind_inr_inv in Hfetch as (multi' & _ & Hfetch).
    apply bind_inr_inv in Hfetch as (current' & Hfirst & [= <- <-]).
    unfold list_getitem in Hfirst. by destruct (multi' !! 0) as [x|]; [injection Hfirst as ->|].
Qed.

Lemma init_json_replaces_fetched_batch_witness :
  __init__ (λ _, two_of_three) (IdList ["A"; "B"; "C"]) ""
    (Some [("items", VList [rec_id "Z"])]) (Some two_of_three)
  = inr (constructed two_of_three (rec_id "A") [rec_id "Z"])
  ∧ [rec_id "A"; VNone; rec_id "C"] !! 0 = Some (rec_id "A").
Proof.
  apply (init_json_replaces_fetched_batch (λ _, two_of_three) (IdList ["A"; "B"; "C"]) ""
           [("items", VList [rec_id "Z"])] two_of_three
           [rec_id "A"; VNone; rec_id "C"] (rec_id "A") [rec_id "Z"]).
  - reflexivity.
  - vm_compute. reflexivity.
  - reflexivity.
Defined.

(** ** Availability on a reconciled batch *)

(** X22: on every entry of a batch the reconciler returned, [available]
    answers whether the entry is a record: [True] on each returned record,
    [False] on each absence marker. *)
Theorem available_on_reconciled_batch requested returned out k self :
  _mark_unavailable_videos requested returned = inr out →
  out !! k = Some (_current_video self) →
  available self = is_present (_current_video self).
Proof.
  intros Hrun Hk.
  destruct (mark_unavailable_videos_inv _ _ _ Hrun) as (ids & Hids & Hsub & _ & _).
  destruct (mark_unavailable_videos_aligned requested returned ids Hids Hsub)
    as (out' & Hrun' & Hal).
  assert (out' = out) as -> by congruence.
  destruct (Forall2_lookup_l _ _ _ _ _ Hal Hk) as (r & _ & [Hnone | [_ Hid]]).
  - unfold available. by rewrite Hnone.
  - unfold available, has_id in *.
    destruct (_current_video self) as [| | |[|kv d]]; by simpl in *.
Qed.

Lemma available_on_reconciled_batch_witness :
  available (pointing_at (rec_id "C")) = is_present (_current_video (pointing_at (rec_id "C"))).
Proof.
  apply (available_on_reconciled_batch ["A"; "B"; "C"] [rec_id "A"; rec_id "C"]
           [rec_id "A"; VNone; rec_id "C"] 2 (pointing_at (rec_id "C"))).
  - vm_compute. reflexivity.
  - reflexivity.
Defined.
